(** * Escape-time evaluation and frame generation of julia.py

    A shallow embedding of the class [Julia] of julia.py: the escape-time
    evaluator [julia_quadratic], the per-frame grid evaluation [animate] and
    the setup performed by [generate].

    Numbers.  Python's [float] and [complex] are modelled by the real numbers
    of the Standard Library and by pairs of them: every arithmetic operation
    is exact.  Rounding, infinities, NaN and the [OverflowError] that CPython
    raises when [z ** 2] or [abs(z)] leaves the binary64 range are therefore
    outside this model.  Python's [int] is [Z].

    Library calls.  [np.linspace], [np.cos], [np.sin], [np.pi], [abs] and the
    complex operators are not part of julia.py; they are modelled by their
    documented behaviour on exact numbers.  The plotting calls
    ([ax.clear], [imshow], [FuncAnimation], [anim.save]), [print] and
    [time.time] are left out: a frame is the array handed to [imshow]. *)

From Stdlib Require Import Reals Lra Lia ZArith List Bool String.
Import ListNotations.

(** ** Python values used by the program *)

Module Py.

(** The exceptions that the modelled calls can raise. *)
Inductive exn : Type :=
| ValueError   (* np.linspace: negative number of samples *)
| IndexError.  (* indexing an array out of its bounds *)

(** Outcome of a call that may raise. *)
Inductive result (A : Type) : Type :=
| Ok (a : A)
| Raise (e : exn).

Arguments Ok {A} a.
Arguments Raise {A} e.

Definition bind {A B : Type} (r : result A) (k : A -> result B) : result B :=
  match r with
  | Ok a => k a
  | Raise e => Raise e
  end.

(** Runs the calls of a list from left to right; the first exception stops
    the run. *)
Fixpoint sequence {A : Type} (rs : list (result A)) : result (list A) :=
  match rs with
  | [] => Ok []
  | r :: rs' => bind r (fun a => bind (sequence rs') (fun l => Ok (a :: l)))
  end.

(** [range(n)] for an [int] n: the integers 0, 1, ..., n-1 (none when
    n <= 0). *)
Definition range (n : Z) : list Z :=
  map Z.of_nat (seq 0 (Z.to_nat n)).

(** Python's [complex]. *)
Record complex : Type := Complex { real : R; imag : R }.

Definition cadd (z w : complex) : complex :=
  Complex (real z + real w) (imag z + imag w).

Definition cmul (z w : complex) : complex :=
  Complex (real z * real w - imag z * imag w)
          (real z * imag w + imag z * real w).

(** [z ** 2]: for a small integer exponent CPython multiplies. *)
Definition cpow2 (z : complex) : complex := cmul z z.

(** [abs(z)], the modulus. *)
Definition cabs (z : complex) : R :=
  sqrt (real z * real z + imag z * imag z).

(** [x > y] on floats, as a boolean. *)
Definition gtb (x y : R) : bool :=
  if Rlt_dec y x then true else false.

End Py.

Import Py.

Notation "x <- r ;; k" := (bind r (fun x => k))
  (at level 61, r at next level, right associativity).

(** ** [Julia.julia_quadratic] *)

(** One pass of the loop body up to the test: [z = z ** 2 + c]. *)
Definition step (c z : complex) : complex := cadd (cpow2 z) c.

(** The loop [for i in range(threshold)] of [julia_quadratic], run over the
    remaining indices [idx] from the current [z] and [traveled].  [Some i]
    means that [return i] was executed; [None] that the loop ran to its end. *)
Fixpoint julia_loop (c : complex) (idx : list Z) (z : complex) (traveled : R)
  : option Z :=
  match idx with
  | [] => None
  | i :: rest =>
      let z' := step c z in
      let traveled' := (traveled + cabs z')%R in
      if gtb (cabs z') 4 then Some i
      else julia_loop c rest z' traveled'
  end.

Definition julia_quadratic (zx zy cx cy : R) (threshold : Z) : Z :=
  let z := Complex zx zy in
  let c := Complex cx cy in
  let traveled := 0%R in
  match julia_loop c (range threshold) z traveled with
  | Some i => i                 (* it diverged *)
  | None => (threshold - 1)%Z   (* it didn't diverge *)
  end.

(** The iterates of [z <- z^2 + c] : [orbit c z k] is z_k, with z_0 = z. *)
Fixpoint orbit (c z : complex) (k : nat) : complex :=
  match k with
  | O => z
  | S k' => step c (orbit c z k')
  end.

(** ** Arrays *)

(** [np.linspace(start, stop, num)] with its defaults ([endpoint=True]):
    [num] evenly spaced samples, the last one set to [stop] itself when there
    are at least two.  A negative [num] raises [ValueError]. *)
Definition linspace (start stop : R) (num : Z) : result (list R) :=
  if (num <? 0)%Z then Raise ValueError
  else
    let div := (num - 1)%Z in
    let delta := (stop - start)%R in
    let y :=
      if (0 <? div)%Z
      then map (fun k => (IZR k * (delta / IZR div) + start)%R) (range num)
      else map (fun k => (IZR k * delta + start)%R) (range num) in
    Ok (if (1 <? num)%Z then removelast y ++ [stop] else y).

(** [arr[i]] for a one-dimensional array: a negative index counts from the
    end, an index outside the array raises [IndexError]. *)
Definition getitem (arr : list R) (i : Z) : result R :=
  let n := Z.of_nat (List.length arr) in
  if ((0 <=? i) && (i <? n))%bool%Z then Ok (nth (Z.to_nat i) arr 0%R)
  else if ((- n <=? i) && (i <? 0))%bool%Z then Ok (nth (Z.to_nat (n + i)) arr 0%R)
  else Raise IndexError.

(** A two-dimensional array: its shape (rows, columns) and its rows.  The
    cells hold the integers that [julia_quadratic] returns (numpy stores them
    as floats of the same value). *)
Record ndarray : Type := NdArray { shape : nat * nat; data : list (list Z) }.

(** [X.T] *)
Definition transpose (X : ndarray) : ndarray :=
  NdArray (snd (shape X), fst (shape X))
          (map (fun j => map (fun row => nth j row 0%Z) (data X))
               (seq 0 (snd (shape X)))).

(** ** The class [Julia] *)

(** The configuration dictionary read by [__init__].  [width], [height],
    [density] and [frames] are Python ints, as in the dictionary of julia.py:
    [np.linspace] takes their products as numbers of samples. *)
Record config : Type := Config {
  x_start : R;
  y_start : R;
  width : Z;
  height : Z;
  init_r : R;
  density : Z;
  threshold : Z;
  interval : Z;
  frames : Z;
  filename : string
}.

(** The attributes that [generate] adds to the object before the first frame:
    [self.re], [self.im] and [self.a]. *)
Record grid : Type := Grid { re : list R; im : list R; a : list R }.

(** The three [np.linspace] calls at the start of [generate]. *)
Definition setup (cfg : config) : result grid :=
  re <- linspace (x_start cfg) (x_start cfg + IZR (width cfg))
                 (width cfg * density cfg) ;;
  im <- linspace (y_start cfg) (y_start cfg + IZR (height cfg))
                 (height cfg * density cfg) ;;
  a <- linspace 0 (2 * PI) (frames cfg) ;;
  Ok (Grid re im a).

(** The constant of frame [i] in [animate]:
    [cx = init_r * cos(a[i])], [cy = init_r * sin(a[i])]. *)
Definition frame_constant (cfg : config) (g : grid) (i : Z) : result (R * R) :=
  ai <- getitem (a g) i ;;
  Ok ((init_r cfg * cos ai)%R, (init_r cfg * sin ai)%R).

(** The array [X] of [animate] once its two loops have filled it:
    [X[i, j] = julia_quadratic(re[i], im[j], cx, cy, threshold)]. *)
Definition escape_grid (g : grid) (cx cy : R) (thr : Z) : ndarray :=
  NdArray (List.length (re g), List.length (im g))
          (map (fun x => map (fun y => julia_quadratic x y cx cy thr) (im g))
               (re g)).

(** [animate(i)]: the array handed to [imshow], which is [X.T]. *)
Definition animate (cfg : config) (g : grid) (i : Z) : result ndarray :=
  c <- frame_constant cfg g i ;;
  let X := escape_grid g (fst c) (snd c) (threshold cfg) in
  Ok (transpose X).

(** [generate]: the setup, then the frames that [FuncAnimation], created with
    [frames=self.frames], requests from [animate]: one for each index of
    [range(frames)], in this order.  The result lists the arrays of these
    frames; an exception ends the run without any. *)
Definition generate (cfg : config) : result (list ndarray) :=
  g <- setup cfg ;;
  sequence (map (animate cfg g) (range (frames cfg))).


(** Configurations on which the statements below are evaluated. *)

(** A small run: two samples per axis, three frames. *)
Definition small_config : config :=
  Config (-2) (-2) 1 1 0.7885 2 10 40 3 "julia_set.gif".


(** A region twice as high as it is wide. *)
Definition tall_config : config :=
  Config (-2) (-2) 1 2 0.7885 1 10 40 1 "julia_set.gif".

(** [small_config] with threshold 0. *)
Definition zero_threshold_config : config :=
  Config (-2) (-2) 1 1 0.7885 2 0 40 3 "julia_set.gif".


(** ** Predicates used in the statements *)


(** Every cell of the array lies in [lo, hi]. *)
Definition cells_in (lo hi : Z) (X : ndarray) : Prop :=
  Forall (Forall (fun v => (lo <= v <= hi)%Z)) (data X).

(** The rows of the array agree with its shape. *)
Definition well_shaped (X : ndarray) : Prop :=
  List.length (data X) = fst (shape X) /\
  Forall (fun row => List.length row = snd (shape X)) (data X).

(** ** [Julia.__init__] *)

Module Constructor.

(** The dictionary passed to [Julia(...)], as the partial map from keys to
    values that it is.  The values are whatever objects the caller put
    there: [__init__] does not look into them. *)
Definition dict (V : Type) : Type := string -> option V.

(** Outcome of [config[key]] and of [__init__]: a value, or the [KeyError]
    of the key that is absent. *)
Inductive outcome (A : Type) : Type :=
| Done (a : A)
| KeyError (key : string).

Arguments Done {A} a.
Arguments KeyError {A} key.

(** [config[key]] *)
Definition getitem {V : Type} (config : dict V) (key : string) : outcome V :=
  match config key with
  | Some v => Done v
  | None => KeyError key
  end.

(** [key in config] *)
Definition contains {V : Type} (config : dict V) (key : string) : bool :=
  match config key with
  | Some _ => true
  | None => false
  end.

(** The dictionary without the item of [key], if it has one. *)
Definition remove {V : Type} (config : dict V) (key : string) : dict V :=
  fun k => if String.eqb k key then None else config k.

Definition and_then {A B : Type} (r : outcome A) (k : A -> outcome B)
  : outcome B :=
  match r with
  | Done a => k a
  | KeyError key => KeyError key
  end.

(** The attributes of the object after [__init__]. *)
Record Julia (V : Type) : Type := Self {
  conf : dict V;
  x_start : V;
  y_start : V;
  width : V;
  height : V;
  init_r : V;
  density : V;
  threshold : V;
  interval : V;
  frames : V
}.

Arguments Self {V}.
Arguments conf {V}.
Arguments x_start {V}.
Arguments y_start {V}.
Arguments width {V}.
Arguments height {V}.
Arguments init_r {V}.
Arguments density {V}.
Arguments threshold {V}.
Arguments interval {V}.
Arguments frames {V}.

(** [Julia.__init__(self, config)]: nine lookups, in the order of the
    assignments. *)
Definition init {V : Type} (config : dict V) : outcome (Julia V) :=
  and_then (getitem config "x_start") (fun x_start =>
  and_then (getitem config "y_start") (fun y_start =>
  and_then (getitem config "width") (fun width =>
  and_then (getitem config "height") (fun height =>
  and_then (getitem config "init_r") (fun init_r =>
  and_then (getitem config "density") (fun density =>
  and_then (getitem config "threshold") (fun threshold =>
  and_then (getitem config "interval") (fun interval =>
  and_then (getitem config "frames") (fun frames =>
  Done (Self config x_start y_start width height init_r density threshold
             interval frames)))))))))).

(** The keys that [__init__] reads, in the order in which it reads them. *)
Definition init_keys : list string :=
  ["x_start"; "y_start"; "width"; "height"; "init_r"; "density";
   "threshold"; "interval"; "frames"]%string.

End Constructor.


(** ** Notions used in the further statements *)

(** The complex conjugate. *)
Definition cconj (z : complex) : complex := Complex (real z) (- imag z).


(** * Properties *)

Local Open Scope R_scope.

(** ** The modulus test *)

Lemma gtb_true_iff (x y : R) : gtb x y = true <-> y < x.
Proof.
  unfold gtb. destruct (Rlt_dec y x); split; intros; auto; discriminate.
Qed.

Lemma gtb_false_iff (x y : R) : gtb x y = false <-> x <= y.
Proof.
  unfold gtb. destruct (Rlt_dec y x); split; intros; auto; try discriminate; lra.
Qed.






(** ** The loop of [julia_quadratic] *)

Lemma orbit_shift (c z : complex) (k : nat) :
  orbit c (step c z) k = orbit c z (S k).
Proof. induction k as [|k IH]; simpl; [reflexivity|]. rewrite IH. reflexivity. Qed.

Lemma range_nonpos (n : Z) : (n <= 0)%Z -> range n = [].
Proof.
  intros H. unfold range. replace (Z.to_nat n) with 0%nat by lia. reflexivity.
Qed.

Lemma range_length (n : Z) : List.length (range n) = Z.to_nat n.
Proof. unfold range. rewrite length_map, length_seq. reflexivity. Qed.

(** A [return i] inside the loop happens at the first index whose iterate has
    modulus above 4. *)
Lemma julia_loop_some (c : complex) (n : nat) :
  forall (s : nat) (z : complex) (t : R) (i : Z),
    julia_loop c (map Z.of_nat (seq s n)) z t = Some i ->
    exists k : nat,
      (k < n)%nat /\ i = Z.of_nat (s + k) /\
      4 < cabs (orbit c z (S k)) /\
      forall j : nat, (j < k)%nat -> cabs (orbit c z (S j)) <= 4.
Proof.
  induction n as [|n IH]; intros s z t i H; simpl in H; [discriminate|].
  destruct (gtb (cabs (step c z)) 4) eqn:E.
  - injection H as <-. exists 0%nat. repeat split.
    + lia.
    + f_equal. lia.
    + simpl. apply gtb_true_iff. exact E.
    + intros j Hj. lia.
  - apply IH in H. destruct H as (k & Hk & Hi & Hd & Hb).
    exists (S k). repeat split.
    + lia.
    + rewrite Hi. f_equal. lia.
    + rewrite <- orbit_shift. exact Hd.
    + intros [|j] Hj.
      * simpl. apply gtb_false_iff. exact E.
      * rewrite <- orbit_shift. apply Hb. lia.
Qed.


(** An index returned from inside the loop is one of [range(threshold)]. *)
Lemma julia_loop_index (c z : complex) (t : R) (threshold i : Z) :
  julia_loop c (range threshold) z t = Some i -> (0 <= i < threshold)%Z.
Proof.
  unfold range. intros H. apply julia_loop_some in H.
  destruct H as (k & Hk & -> & _). lia.
Qed.

(** Negating the starting point does not change the first iterate. *)
Lemma step_neg (c : complex) (zx zy : R) :
  step c (Complex (- zx) (- zy)) = step c (Complex zx zy).
Proof. unfold step, cpow2, cmul, cadd. simpl. f_equal; ring. Qed.

(** ** Claims about [julia_quadratic] *)









(** C3, as amended: called with threshold < 1, [julia_quadratic] raises
    nothing; the loop body is never run and the call returns threshold - 1,
    a negative integer. *)
Theorem julia_quadratic_nonpositive (zx zy cx cy : R) (threshold : Z) :
  (threshold < 1)%Z ->
  julia_quadratic zx zy cx cy threshold = (threshold - 1)%Z /\
  (julia_quadratic zx zy cx cy threshold < 0)%Z.
Proof.
  intros H. assert (E : julia_quadratic zx zy cx cy threshold = (threshold - 1)%Z).
  { unfold julia_quadratic. rewrite range_nonpos by lia. reflexivity. }
  rewrite E. split; [reflexivity | lia].
Qed.

Lemma julia_quadratic_nonpositive_witness :
  (0 < 1)%Z /\ julia_quadratic 0 0 0 0 0 = (0 - 1)%Z /\
  (julia_quadratic 0 0 0 0 0 < 0)%Z.
Proof. split; [lia | apply (@julia_quadratic_nonpositive 0 0 0 0 0); lia]. Defined.

(** C3, as stated, fails: with threshold 0 the call returns the value -1. *)
Lemma julia_quadratic_nonpositive_counterexample :
  (0 < 1)%Z /\ julia_quadratic 0 0 0 0 0 = (-1)%Z.
Proof. split; [lia | reflexivity]. Qed.






(** C10: for all real zx, zy, cx, cy and every threshold >= 1,
    julia_quadratic(-zx, -zy, cx, cy, threshold) equals
    julia_quadratic(zx, zy, cx, cy, threshold): the two orbits coincide from
    the first iterate on and the test comes after the update. *)
Theorem julia_quadratic_neg (zx zy cx cy : R) (threshold : Z) :
  (1 <= threshold)%Z ->
  julia_quadratic (- zx) (- zy) cx cy threshold =
  julia_quadratic zx zy cx cy threshold.
Proof.
  intros _. unfold julia_quadratic.
  destruct (range threshold) as [|i rest]; [reflexivity|].
  cbn [julia_loop]. rewrite step_neg. reflexivity.
Qed.

Lemma julia_quadratic_neg_witness :
  (1 <= 50)%Z /\
  julia_quadratic (- 1) (- 2) 3 4 50 = julia_quadratic 1 2 3 4 50.
Proof. split; [lia | apply (@julia_quadratic_neg 1 2 3 4 50); lia]. Defined.

(** ** [np.linspace] and indexing *)

Lemma linspace_negative (start stop : R) (num : Z) :
  (num < 0)%Z -> linspace start stop num = Raise ValueError.
Proof.
  intros H. unfold linspace. apply Z.ltb_lt in H. rewrite H. reflexivity.
Qed.

Lemma linspace_zero (start stop : R) : linspace start stop 0 = Ok [].
Proof. reflexivity. Qed.

Lemma linspace_one (start stop : R) :
  linspace start stop 1 = Ok [IZR 0 * (stop - start) + start].
Proof. reflexivity. Qed.

(** With at least two samples: the evenly spaced ones, then [stop] itself. *)
Lemma linspace_many (start stop : R) (num : Z) :
  (2 <= num)%Z ->
  linspace start stop num =
  Ok (map (fun k : nat =>
             IZR (Z.of_nat k) * ((stop - start) / IZR (num - 1)) + start)
          (seq 0 (Z.to_nat num - 1)) ++ [stop]).
Proof.
  intros H. unfold linspace, range.
  replace (num <? 0)%Z with false by (symmetry; apply Z.ltb_ge; lia).
  replace (0 <? num - 1)%Z with true by (symmetry; apply Z.ltb_lt; lia).
  replace (1 <? num)%Z with true by (symmetry; apply Z.ltb_lt; lia).
  cbv beta iota zeta.
  destruct (Z.to_nat num) as [|m] eqn:E; [lia|].
  replace (S m - 1)%nat with m by lia.
  rewrite seq_S, !map_app. cbn [map].
  rewrite removelast_last, map_map. reflexivity.
Qed.

Lemma linspace_length (start stop : R) (num : Z) (l : list R) :
  linspace start stop num = Ok l ->
  (0 <= num)%Z /\ List.length l = Z.to_nat num.
Proof.
  intros H. destruct (Z.lt_ge_cases num 0) as [Hneg|Hpos].
  - rewrite linspace_negative in H by assumption. discriminate.
  - split; [assumption|].
    destruct (Z.lt_ge_cases num 2) as [Hsmall|Hbig].
    + assert (num = 0 \/ num = 1)%Z as [-> | ->] by lia.
      * rewrite linspace_zero in H. injection H as <-. reflexivity.
      * rewrite linspace_one in H. injection H as <-. reflexivity.
    + rewrite linspace_many in H by assumption. injection H as <-.
      rewrite length_app, length_map, length_seq. simpl. lia.
Qed.

Lemma linspace_ok (start stop : R) (num : Z) :
  (0 <= num)%Z -> exists l : list R, linspace start stop num = Ok l.
Proof.
  intros H. unfold linspace.
  replace (num <? 0)%Z with false by (symmetry; apply Z.ltb_ge; lia).
  eexists. reflexivity.
Qed.





Lemma getitem_in_range (arr : list R) (i : Z) :
  (0 <= i < Z.of_nat (List.length arr))%Z ->
  getitem arr i = Ok (nth (Z.to_nat i) arr 0).
Proof.
  intros H. unfold getitem.
  replace (0 <=? i)%Z with true by (symmetry; apply Z.leb_le; lia).
  replace (i <? Z.of_nat (List.length arr))%Z with true
    by (symmetry; apply Z.ltb_lt; lia).
  reflexivity.
Qed.

(** ** The setup of [generate] *)

Lemma setup_inv (cfg : config) (g : grid) :
  setup cfg = Ok g ->
  linspace (x_start cfg) (x_start cfg + IZR (width cfg))
           (width cfg * density cfg) = Ok (re g) /\
  linspace (y_start cfg) (y_start cfg + IZR (height cfg))
           (height cfg * density cfg) = Ok (im g) /\
  linspace 0 (2 * PI) (frames cfg) = Ok (a g).
Proof.
  unfold setup. intros H.
  destruct (linspace (x_start cfg) _ _) as [r|] eqn:Er; [|discriminate].
  destruct (linspace (y_start cfg) _ _) as [m|] eqn:Em; [|discriminate].
  destruct (linspace 0 _ _) as [an|] eqn:Ea; [|discriminate].
  cbn [bind] in H. injection H as <-. cbn [re im a]. auto.
Qed.

Lemma setup_ok (cfg : config) :
  (0 <= width cfg * density cfg)%Z ->
  (0 <= height cfg * density cfg)%Z ->
  (0 <= frames cfg)%Z ->
  exists g : grid, setup cfg = Ok g.
Proof.
  intros Hw Hh Hf. unfold setup.
  destruct (linspace_ok (x_start cfg) (x_start cfg + IZR (width cfg)) _ Hw)
    as [r ->].
  destruct (linspace_ok (y_start cfg) (y_start cfg + IZR (height cfg)) _ Hh)
    as [m ->].
  destruct (linspace_ok 0 (2 * PI) _ Hf) as [an ->].
  cbn [bind]. eexists. reflexivity.
Qed.


Lemma setup_lengths (cfg : config) (g : grid) :
  setup cfg = Ok g ->
  List.length (re g) = Z.to_nat (width cfg * density cfg) /\
  List.length (im g) = Z.to_nat (height cfg * density cfg) /\
  List.length (a g) = Z.to_nat (frames cfg) /\
  (0 <= frames cfg)%Z.
Proof.
  intros H. apply setup_inv in H. destruct H as (Hr & Hm & Ha).
  apply linspace_length in Hr, Hm, Ha. intuition.
Qed.

(** ** Frames *)

Lemma sequence_map_ok {A B : Type} (f : A -> result B) (l : list A) :
  (forall x : A, In x l -> exists y : B, f x = Ok y) ->
  exists ys : list B,
    sequence (map f l) = Ok ys /\ List.length ys = List.length l.
Proof.
  induction l as [|x l IH]; intros H.
  - exists []. split; reflexivity.
  - destruct (H x (or_introl eq_refl)) as [y Hy].
    destruct IH as (ys & Hys & Hlen).
    { intros x' Hx'. apply H. right. exact Hx'. }
    exists (y :: ys). cbn [map sequence]. rewrite Hy, Hys. cbn [bind].
    split; [reflexivity | simpl; congruence].
Qed.

Lemma in_range (n i : Z) : In i (range n) <-> (0 <= i < n)%Z.
Proof.
  unfold range. rewrite in_map_iff. split.
  - intros (k & <- & Hk). apply in_seq in Hk. lia.
  - intros H. exists (Z.to_nat i). split; [lia|]. apply in_seq. lia.
Qed.

Lemma frame_constant_ok (cfg : config) (g : grid) (i : Z) :
  setup cfg = Ok g ->
  (0 <= i < frames cfg)%Z ->
  frame_constant cfg g i =
  Ok (init_r cfg * cos (nth (Z.to_nat i) (a g) 0),
      init_r cfg * sin (nth (Z.to_nat i) (a g) 0)).
Proof.
  intros Hg Hi. apply setup_lengths in Hg. destruct Hg as (_ & _ & Ha & _).
  unfold frame_constant. rewrite getitem_in_range by lia. reflexivity.
Qed.

Lemma transpose_well_shaped (X : ndarray) :
  well_shaped X -> well_shaped (transpose X).
Proof.
  unfold well_shaped, transpose. cbn [shape data fst snd]. intros [Hlen _]. split.
  - rewrite length_map, length_seq. reflexivity.
  - apply Forall_map, Forall_forall. intros j _. rewrite length_map. exact Hlen.
Qed.

Lemma transpose_cells (lo hi : Z) (X : ndarray) :
  well_shaped X -> cells_in lo hi X -> cells_in lo hi (transpose X).
Proof.
  unfold well_shaped, cells_in, transpose. cbn [data].
  intros [_ Hrows] Hcells.
  apply Forall_map, Forall_forall. intros j Hj. apply in_seq in Hj.
  apply Forall_map, Forall_forall. intros row Hrow.
  rewrite Forall_forall in Hrows, Hcells.
  specialize (Hrows row Hrow). specialize (Hcells row Hrow).
  rewrite Forall_forall in Hcells. apply Hcells, nth_In. lia.
Qed.

Lemma escape_grid_well_shaped (g : grid) (cx cy : R) (thr : Z) :
  well_shaped (escape_grid g cx cy thr).
Proof.
  unfold well_shaped, escape_grid. cbn [shape data fst snd]. split.
  - apply length_map.
  - apply Forall_map, Forall_forall. intros x _. apply length_map.
Qed.

Lemma escape_grid_cells (g : grid) (cx cy : R) (thr : Z) :
  (1 <= thr)%Z -> cells_in 0 (thr - 1) (escape_grid g cx cy thr).
Proof.
  intros Hthr. unfold cells_in, escape_grid. cbn [data].
  apply Forall_map, Forall_forall. intros x _.
  apply Forall_map, Forall_forall. intros y _.
  unfold julia_quadratic.
  destruct (julia_loop _ _ _ _) as [i|] eqn:E; [|lia].
  apply julia_loop_index in E. lia.
Qed.

Lemma animate_ok (cfg : config) (g : grid) (i : Z) :
  setup cfg = Ok g ->
  (0 <= i < frames cfg)%Z ->
  exists cx cy : R,
    frame_constant cfg g i = Ok (cx, cy) /\
    animate cfg g i = Ok (transpose (escape_grid g cx cy (threshold cfg))).
Proof.
  intros Hg Hi. pose proof (frame_constant_ok cfg g i Hg Hi) as Hc.
  eexists. eexists. split; [exact Hc|].
  unfold animate. rewrite Hc. reflexivity.
Qed.

Lemma generate_ok (cfg : config) :
  (0 <= width cfg * density cfg)%Z ->
  (0 <= height cfg * density cfg)%Z ->
  (0 <= frames cfg)%Z ->
  exists fs : list ndarray,
    generate cfg = Ok fs /\ List.length fs = Z.to_nat (frames cfg).
Proof.
  intros Hw Hh Hf. destruct (setup_ok cfg Hw Hh Hf) as [g Hg].
  unfold generate. rewrite Hg. cbn [bind].
  destruct (sequence_map_ok (animate cfg g) (range (frames cfg))) as (fs & Hfs & Hlen).
  { intros i Hi. apply in_range in Hi.
    destruct (animate_ok cfg g i Hg Hi) as (cx & cy & _ & ->). eexists. reflexivity. }
  exists fs. split; [exact Hfs|]. rewrite Hlen. apply range_length.
Qed.

(** ** Claims about the grid, the constants and the frames *)











Lemma sequence_map_in {A B : Type} (f : A -> result B) (l : list A) :
  forall (ys : list B),
    sequence (map f l) = Ok ys ->
    forall y : B, In y ys -> exists x : A, In x l /\ f x = Ok y.
Proof.
  induction l as [|x0 l IH]; intros ys H y Hy.
  - injection H as <-. destruct Hy.
  - cbn [map sequence] in H.
    destruct (f x0) as [y0|] eqn:E0; [|discriminate]. cbn [bind] in H.
    destruct (sequence (map f l)) as [ys'|] eqn:E; [|discriminate].
    cbn [bind] in H. injection H as <-.
    destruct Hy as [<- | Hy].
    + exists x0. split; [left; reflexivity | exact E0].
    + destruct (IH ys' eq_refl y Hy) as (x & Hx & Hfx).
      exists x. split; [right; exact Hx | exact Hfx].
Qed.


(** The array of one frame: its shape, its rows and its cells. *)
Lemma animate_frame (cfg : config) (g : grid) (i : Z) :
  setup cfg = Ok g ->
  (0 <= i < frames cfg)%Z ->
  exists X : ndarray,
    animate cfg g i = Ok X /\
    shape X = (Z.to_nat (height cfg * density cfg),
               Z.to_nat (width cfg * density cfg)) /\
    well_shaped X /\
    ((1 <= threshold cfg)%Z -> cells_in 0 (threshold cfg - 1) X).
Proof.
  intros Hg Hi. destruct (animate_ok cfg g i Hg Hi) as (cx & cy & _ & HX).
  destruct (setup_lengths cfg g Hg) as (Hr & Hm & _).
  eexists. split; [exact HX|]. split; [|split].
  - unfold transpose, escape_grid. cbn [shape fst snd]. rewrite Hr, Hm. reflexivity.
  - apply transpose_well_shaped, escape_grid_well_shaped.
  - intros Hthr. apply transpose_cells.
    + apply escape_grid_well_shaped.
    + apply escape_grid_cells. exact Hthr.
Qed.

Lemma generate_frames (cfg : config) (fs : list ndarray) (X : ndarray) :
  generate cfg = Ok fs -> In X fs ->
  exists (g : grid) (i : Z),
    setup cfg = Ok g /\ (0 <= i < frames cfg)%Z /\ animate cfg g i = Ok X.
Proof.
  unfold generate. intros H HX.
  destruct (setup cfg) as [g|] eqn:Hg; [|discriminate]. cbn [bind] in H.
  destruct (sequence_map_in _ _ _ H X HX) as (i & Hi & Hani).
  exists g, i. apply in_range in Hi. auto.
Qed.

(** C8, as amended: for every frame, the array handed to the renderer is the
    transpose of the array filled by the core, so its shape is (H, W) with
    H = height * density and W = width * density; and when threshold >= 1
    every cell is an integer between 0 and threshold - 1. *)
Theorem emitted_frame (cfg : config) (fs : list ndarray) (X : ndarray) :
  generate cfg = Ok fs -> In X fs ->
  shape X = (Z.to_nat (height cfg * density cfg),
             Z.to_nat (width cfg * density cfg)) /\
  well_shaped X /\
  ((1 <= threshold cfg)%Z -> cells_in 0 (threshold cfg - 1) X).
Proof.
  intros H HX. destruct (generate_frames cfg fs X H HX) as (g & i & Hg & Hi & Hani).
  destruct (animate_frame cfg g i Hg Hi) as (X' & HX' & Hshape & Hws & Hcells).
  rewrite Hani in HX'. injection HX' as <-. auto.
Qed.

Lemma emitted_frame_witness :
  exists (fs : list ndarray) (X : ndarray),
    generate small_config = Ok fs /\ In X fs /\
    shape X = (2%nat, 2%nat) /\
    well_shaped X /\
    ((1 <= threshold small_config)%Z -> cells_in 0 9 X).
Proof.
  destruct (generate_ok small_config) as (fs & Hfs & Hlen); try (cbn; lia).
  destruct fs as [|X fs]; [discriminate Hlen|].
  exists (X :: fs), X.
  split; [exact Hfs|]. split; [left; reflexivity|].
  apply (emitted_frame small_config (X :: fs) X Hfs). left. reflexivity.
Defined.

(** C8, as stated, fails.  With width 1, height 2 and density 1 the array of
    a frame has shape (2, 1), which is (H, W) and not (W, H); and with
    threshold 0 the cells of a frame are not in [0, threshold - 1]. *)
Lemma emitted_frame_counterexample :
  (exists (fs : list ndarray) (X : ndarray),
     generate tall_config = Ok fs /\ In X fs /\
     shape X <> (Z.to_nat (width tall_config * density tall_config),
                 Z.to_nat (height tall_config * density tall_config))) /\
  (exists (fs : list ndarray) (X : ndarray),
     generate zero_threshold_config = Ok fs /\ In X fs /\
     ~ cells_in 0 (threshold zero_threshold_config - 1) X).
Proof.
  split.
  - destruct (generate_ok tall_config) as (fs & Hfs & Hlen); try (cbn; lia).
    destruct fs as [|X fs]; [discriminate Hlen|].
    exists (X :: fs), X. split; [exact Hfs|]. split; [left; reflexivity|].
    destruct (generate_frames tall_config (X :: fs) X Hfs (or_introl eq_refl))
      as (g & i & Hg & Hi & Hani).
    destruct (animate_frame tall_config g i Hg Hi) as (X' & HX' & Hshape & _).
    rewrite Hani in HX'. injection HX' as <-. rewrite Hshape.
    cbn. discriminate.
  - destruct (generate_ok zero_threshold_config) as (fs & Hfs & Hlen);
      try (cbn; lia).
    destruct fs as [|X fs]; [discriminate Hlen|].
    exists (X :: fs), X. split; [exact Hfs|]. split; [left; reflexivity|].
    destruct (generate_frames zero_threshold_config (X :: fs) X Hfs
                (or_introl eq_refl)) as (g & i & Hg & Hi & Hani).
    destruct (animate_frame zero_threshold_config g i Hg Hi)
      as (X' & HX' & Hshape & (Hrows & Hcols) & _).
    rewrite Hani in HX'. injection HX' as <-.
    rewrite Hshape in Hrows, Hcols. cbn in Hrows, Hcols.
    unfold cells_in. intros Hcells.
    destruct (data X) as [|row rows]; [discriminate Hrows|].
    apply Forall_inv in Hcols, Hcells.
    destruct row as [|v row]; [discriminate Hcols|].
    apply Forall_inv in Hcells. cbn in Hcells. lia.
Qed.



(** * Further properties *)

(** ** The escape time computed by [julia_quadratic] *)










(** X5: the accumulator [traveled] is dead: the loop gives the same result
    from any two values of it. *)
Theorem traveled_unused (c : complex) (idx : list Z) (z : complex) (t t' : R) :
  julia_loop c idx z t = julia_loop c idx z t'.
Proof.
  revert z t t'. induction idx as [|i rest IH]; intros z t t'; [reflexivity|].
  cbn [julia_loop]. destruct (gtb (cabs (step c z)) 4); [reflexivity|].
  apply IH.
Qed.

(** Conjugating the point and the constant conjugates the iterate. *)
Lemma step_conj (c z : complex) : step (cconj c) (cconj z) = cconj (step c z).
Proof.
  unfold step, cpow2, cmul, cadd, cconj. cbn [real imag]. f_equal; ring.
Qed.

Lemma cabs_conj (z : complex) : cabs (cconj z) = cabs z.
Proof. unfold cabs, cconj. cbn [real imag]. f_equal. ring. Qed.

Lemma julia_loop_conj (c : complex) (idx : list Z) :
  forall (z : complex) (t : R),
    julia_loop (cconj c) idx (cconj z) t = julia_loop c idx z t.
Proof.
  induction idx as [|i rest IH]; intros z t; [reflexivity|].
  cbn [julia_loop]. rewrite step_conj, cabs_conj.
  destruct (gtb (cabs (step c z)) 4); [reflexivity|]. apply IH.
Qed.

Lemma julia_quadratic_conj (zx zy cx cy : R) (thr : Z) :
  julia_quadratic zx (- zy) cx (- cy) thr = julia_quadratic zx zy cx cy thr.
Proof.
  unfold julia_quadratic.
  change (Complex zx (- zy)) with (cconj (Complex zx zy)).
  change (Complex cx (- cy)) with (cconj (Complex cx cy)).
  rewrite julia_loop_conj. reflexivity.
Qed.

(** X6: conjugating both the starting point and the constant leaves the
    result unchanged, for every threshold:
    julia_quadratic(zx, -zy, cx, -cy, threshold) equals
    julia_quadratic(zx, zy, cx, cy, threshold). *)
Theorem julia_quadratic_conjugate (zx zy cx cy : R) (thr : Z) :
  julia_quadratic zx (- zy) cx (- cy) thr = julia_quadratic zx zy cx cy thr /\
  julia_quadratic zx zy cx (- cy) thr = julia_quadratic zx (- zy) cx cy thr.
Proof.
  split; [apply julia_quadratic_conj|].
  rewrite <- (julia_quadratic_conj zx (- zy) cx cy thr).
  rewrite Ropp_involutive. reflexivity.
Qed.






(** ** Indexing in [animate] *)

(** X8: once the setup has run, [animate(i)] raises [IndexError] exactly
    when i lies outside [-frames, frames). *)
Theorem animate_index_error (cfg : config) (g : grid) (i : Z) :
  setup cfg = Ok g ->
  (animate cfg g i = Raise IndexError <->
   (i < - frames cfg \/ frames cfg <= i)%Z).
Proof.
  intros Hg. destruct (setup_lengths cfg g Hg) as (_ & _ & Hlen & Hf).
  unfold animate, frame_constant, getitem. rewrite Hlen, Z2Nat.id by exact Hf.
  destruct ((0 <=? i)%Z && (i <? frames cfg)%Z) eqn:E1; cbn [bind].
  - apply andb_prop in E1. destruct E1 as [E1 E2].
    apply Z.leb_le in E1. apply Z.ltb_lt in E2.
    split; [discriminate | lia].
  - destruct ((- frames cfg <=? i)%Z && (i <? 0)%Z) eqn:E2; cbn [bind].
    + apply andb_prop in E2. destruct E2 as [E2 E3].
      apply Z.leb_le in E2. apply Z.ltb_lt in E3.
      split; [discriminate | lia].
    + split; [|reflexivity]. intros _.
      apply andb_false_iff in E1, E2.
      rewrite Z.leb_gt, Z.ltb_ge in E1. rewrite Z.leb_gt, Z.ltb_ge in E2. lia.
Qed.

Lemma animate_index_error_witness :
  exists g : grid,
    setup small_config = Ok g /\ animate small_config g 3 = Raise IndexError.
Proof.
  destruct (setup_ok small_config) as [g Hg]; try (cbn; lia).
  exists g. split; [exact Hg|].
  apply (proj2 (animate_index_error small_config g 3 Hg)). right. cbn. lia.
Defined.

(** X9: a negative index counts from the last frame: for
    -frames <= i < 0, [animate(i)] gives the array of [animate(i + frames)]. *)
Theorem animate_negative_index (cfg : config) (g : grid) (i : Z) :
  setup cfg = Ok g ->
  (- frames cfg <= i < 0)%Z ->
  animate cfg g i = animate cfg g (i + frames cfg).
Proof.
  intros Hg Hi. destruct (setup_lengths cfg g Hg) as (_ & _ & Hlen & Hf).
  unfold animate, frame_constant.
  rewrite (getitem_in_range (a g) (i + frames cfg)) by lia.
  unfold getitem. rewrite Hlen, Z2Nat.id by exact Hf.
  replace (0 <=? i)%Z with false by (symmetry; apply Z.leb_gt; lia).
  replace (- frames cfg <=? i)%Z with true by (symmetry; apply Z.leb_le; lia).
  replace (i <? 0)%Z with true by (symmetry; apply Z.ltb_lt; lia).
  cbn [andb bind]. rewrite (Z.add_comm (frames cfg) i). reflexivity.
Qed.

Lemma animate_negative_index_witness :
  exists g : grid,
    setup small_config = Ok g /\
    animate small_config g (-1) = animate small_config g (-1 + 3).
Proof.
  destruct (setup_ok small_config) as [g Hg]; try (cbn; lia).
  exists g. split; [exact Hg|].
  apply (animate_negative_index small_config g (-1) Hg). cbn. lia.
Defined.

(** ** The cells of a frame *)






(** ** Spacing and symmetry of the samples *)









(** ** Symmetries of the frames *)








(** ** The constructor *)

(** X15: [__init__] raises the [KeyError] of the first of its nine keys, in
    the order of its assignments, that the dictionary lacks; when the
    dictionary has all nine it succeeds and keeps the dictionary itself in
    [self.conf].  No other key is looked up: the key "filename", which only
    [generate] reads, may be absent. *)
Theorem init_first_missing (V : Type) (config : Constructor.dict V) :
  match Constructor.init config with
  | Constructor.Done self =>
      find (fun k => negb (Constructor.contains config k))
           Constructor.init_keys = None /\
      Constructor.conf self = config
  | Constructor.KeyError key =>
      find (fun k => negb (Constructor.contains config k))
           Constructor.init_keys = Some key
  end /\
  Constructor.init (Constructor.remove config "filename") =
  match Constructor.init config with
  | Constructor.Done self =>
      Constructor.Done
        (Constructor.Self (Constructor.remove config "filename")
           (Constructor.x_start self) (Constructor.y_start self)
           (Constructor.width self) (Constructor.height self)
           (Constructor.init_r self) (Constructor.density self)
           (Constructor.threshold self) (Constructor.interval self)
           (Constructor.frames self))
  | Constructor.KeyError key => Constructor.KeyError key
  end.
Proof.
  unfold Constructor.init, Constructor.init_keys, Constructor.getitem,
    Constructor.contains, Constructor.remove.
  cbn [find String.eqb Ascii.eqb Bool.eqb].
  destruct (config "x_start"%string); cbn; [|auto].
  destruct (config "y_start"%string); cbn; [|auto].
  destruct (config "width"%string); cbn; [|auto].
  destruct (config "height"%string); cbn; [|auto].
  destruct (config "init_r"%string); cbn; [|auto].
  destruct (config "density"%string); cbn; [|auto].
  destruct (config "threshold"%string); cbn; [|auto].
  destruct (config "interval"%string); cbn; [|auto].
  destruct (config "frames"%string); cbn; auto.
Qed.

(** ** Points far from and close to the origin *)








